(** * Reloj: the stopwatch and the activity log of [App.js]

    A shallow embedding of the timer logic of [ClockScreen], of the shared
    activity log of [App] and of the two duration renderings
    ([formatTime] in [ClockScreen], the inline one of [renderActivityItem]).

    JavaScript numbers are modelled by [Z]: every number the stopwatch
    handles is an integer (a counter that starts at 0 and grows by 1, and
    millisecond clock readings), far inside the range where doubles are
    exact. The operations of module [JS] are those of exact integers; the
    module [Double] has the same operations with the rounding of IEEE 754
    doubles, and the two agree below [2^53]. *)

From Stdlib Require Import ZArith Lia Ascii.
From stdpp Require Import base option list strings gmap fin_maps.

Local Open Scope Z_scope.

(** ** Strings of numbers *)

Module JS.

(** The character of a decimal digit [d] (0..9). *)
Definition digit_char (d : Z) : ascii :=
  ascii_of_nat (48 + Z.to_nat d).

(** Decimal digits of a non-negative integer, most significant first.
    [fuel] bounds the number of digits written. *)
Fixpoint digits_fuel (fuel : nat) (n : Z) : string :=
  match fuel with
  | O => EmptyString
  | S fuel' =>
      if n <? 10 then String (digit_char n) EmptyString
      else digits_fuel fuel' (n / 10) +:+ String (digit_char (n mod 10)) EmptyString
  end.

(** A number of binary digits bounds the number of decimal digits. *)
Definition digits (n : Z) : string :=
  digits_fuel (S (Z.to_nat (Z.log2 n))) n.

(** [Number.prototype.toString()] (radix 10) and the implicit conversion
    of string concatenation and [join], on integers: every digit is
    written, as JavaScript does below [2^53] ([Double.Number_toString] is
    the conversion of all integer-valued doubles). *)
Definition Number_toString (n : Z) : string :=
  if n <? 0 then String "-"%char (digits (- n)) else digits n.

(** [padString] repeated and cut to exactly [k] characters. *)
Fixpoint fill_fuel (fuel : nat) (padString : string) (k : nat) : string :=
  match fuel with
  | O => EmptyString
  | S fuel' =>
      if (k <=? String.length padString)%nat then String.substring 0 k padString
      else padString +:+ fill_fuel fuel' padString (k - String.length padString)
  end.

(** [String.prototype.padStart(targetLength, padString)]. *)
Definition padStart (targetLength : nat) (padString : string) (s : string) : string :=
  if (targetLength <=? String.length s)%nat then s
  else match padString with
       | EmptyString => s
       | _ => fill_fuel (S targetLength) padString (targetLength - String.length s) +:+ s
       end.

(** [Array.prototype.join(sep)] on an array of strings. *)
Fixpoint join (sep : string) (l : list string) : string :=
  match l with
  | [] => EmptyString
  | [x] => x
  | x :: rest => x +:+ sep +:+ join sep rest
  end.

(** [Math.floor(a / b)] for a positive divisor and [a % b]: the quotient
    rounds down, the remainder takes the sign of the dividend. The quotient
    is the exact one, which is what JavaScript computes for a dividend below
    [2^53] ([Double.floor_div] rounds the quotient to a double first); the
    remainder of doubles is exact. *)
Definition floor_div (a b : Z) : Z := a / b.
Definition rem (a b : Z) : Z := Z.rem a b.

End JS.

(** ** [formatTime] (ClockScreen) *)

(** The element of the mapped array: [v < 10 ? '0' + v : v], a string or a
    number that [join] then converts. *)
Definition pad_field (v : Z) : string :=
  if v <? 10 then "0" +:+ JS.Number_toString v else JS.Number_toString v.

Definition formatTime (totalSeconds : Z) : string :=
  let hours := JS.floor_div totalSeconds 3600 in
  let minutes := JS.floor_div (JS.rem totalSeconds 3600) 60 in
  let seconds := JS.rem totalSeconds 60 in
  JS.join ":" (map pad_field [hours; minutes; seconds]).

(** ** The duration text of [renderActivityItem] (ActivityLogScreen)

    The children of the [Text] element: the literal [Duration: ], three
    expressions and the two colons between them (JSX drops the line breaks
    and the indentation around the expressions). *)
Definition renderDuration (durationSeconds : Z) : string :=
  JS.padStart 2 "0" (JS.Number_toString (JS.floor_div durationSeconds 3600))
  +:+ ":" +:+
  JS.padStart 2 "0" (JS.Number_toString (JS.floor_div (JS.rem durationSeconds 3600) 60))
  +:+ ":" +:+
  JS.padStart 2 "0" (JS.Number_toString (JS.rem durationSeconds 60)).

Definition renderDurationText (durationSeconds : Z) : string :=
  "Duration: " +:+ renderDuration durationSeconds.

(** Reading a string of decimal digits back. *)
Definition digit_value (c : ascii) : option Z :=
  let n := Z.of_nat (nat_of_ascii c) in
  if (48 <=? n) && (n <=? 57) then Some (n - 48) else None.

Fixpoint decimal_acc (acc : Z) (s : string) : option Z :=
  match s with
  | EmptyString => Some acc
  | String c s' =>
      match digit_value c with
      | Some d => decimal_acc (acc * 10 + d) s'
      | None => None
      end
  end.

Definition decimal_value (s : string) : option Z :=
  match s with
  | EmptyString => None
  | _ => decimal_acc 0 s
  end.

(** ** [formatTime] on doubles

    The arithmetic of [formatTime] as JavaScript performs it on IEEE 754
    doubles. A number is given by the integer it holds; the operations are
    meant for integers that a finite double can hold. *)
Module Double.

(** The integer nearest to [num / den] ([den > 0]), ties to the even one. *)
Definition round_half_even (num den : Z) : Z :=
  let q := num / den in
  let r := num mod den in
  if 2 * r <? den then q
  else if den <? 2 * r then q + 1
  else if Z.even q then q else q + 1.

(** [x * 2^e], rounded down. *)
Definition scale (x e : Z) : Z :=
  if 0 <=? e then x * 2 ^ e else x / 2 ^ (- e).

(** The exponent of the last bit of the 53-bit quotient of [a] by [b]
    ([a, b > 0]): [2^52 <= a / (b * 2^e) < 2^53]. *)
Definition quotient_exponent (a b : Z) : Z :=
  let e0 := Z.log2 a - Z.log2 b - 52 in
  if a * 2 ^ Z.max 0 (- e0) <? 2 ^ 52 * (b * 2 ^ Z.max 0 e0) then e0 - 1 else e0.

(** The double [a / b] is [quotient_mantissa a b * 2 ^ quotient_exponent a b]. *)
Definition quotient_mantissa (a b : Z) : Z :=
  let e := quotient_exponent a b in
  round_half_even (a * 2 ^ Z.max 0 (- e)) (b * 2 ^ Z.max 0 e).

(** [Math.floor(a / b)] for a positive divisor: the quotient is rounded to
    a double, then rounded down. *)
Definition floor_div (a b : Z) : Z :=
  if a =? 0 then 0
  else scale (Z.sgn a * quotient_mantissa (Z.abs a) b) (quotient_exponent (Z.abs a) b).

(** The double nearest to the integer [x >= 0]. *)
Definition round53 (x : Z) : Z :=
  let e := Z.log2 x - 52 in
  if e <=? 0 then x else round_half_even x (2 ^ e) * 2 ^ e.

(** Of the two multiples of [p] around [v], the one that reads back as the
    double [v]; the nearer one when both do, the even one on a tie. *)
Definition pick (v p c_lo c_hi : Z) : option Z :=
  match round53 c_lo =? v, round53 c_hi =? v with
  | true, true =>
      if v - c_lo <? c_hi - v then Some c_lo
      else if c_hi - v <? v - c_lo then Some c_hi
      else if Z.even (c_lo / p) then Some c_lo else Some c_hi
  | true, false => Some c_lo
  | false, true => Some c_hi
  | false, false => None
  end.

(** The decimal number with the fewest significant digits that reads back
    as the double [v]: one digit is tried first ([p] is the weight of the
    last digit tried). *)
Fixpoint shortest_fuel (fuel : nat) (v p : Z) : Z :=
  match fuel with
  | O => v
  | S fuel' =>
      match pick v p (v / p * p) (v / p * p + p) with
      | Some c => c
      | None => shortest_fuel fuel' v (p / 10)
      end
  end.

Definition shortest (v : Z) : Z :=
  let n := String.length (JS.digits v) in
  shortest_fuel n v (10 ^ (Z.of_nat n - 1)).

Fixpoint strip_zeros (s : string) : string :=
  match s with
  | EmptyString => EmptyString
  | String c rest =>
      match strip_zeros rest with
      | EmptyString => if Ascii.eqb c "0" then EmptyString else String c EmptyString
      | rest' => String c rest'
      end
  end.

(** The exponential notation written from [10^21] on. *)
Definition exponential (d : string) : string :=
  match strip_zeros d with
  | EmptyString => d
  | String c EmptyString => String c ("e+" +:+ JS.digits (Z.of_nat (String.length d) - 1))
  | String c rest =>
      String c ("." +:+ rest +:+ "e+" +:+ JS.digits (Z.of_nat (String.length d) - 1))
  end.

Definition magnitude_toString (v : Z) : string :=
  let c := shortest v in
  if c <? 10 ^ 21 then JS.digits c else exponential (JS.digits c).

(** [Number.prototype.toString()] on an integer-valued double. *)
Definition Number_toString (v : Z) : string :=
  if v <? 0 then String "-"%char (magnitude_toString (- v)) else magnitude_toString v.

Definition pad_field (v : Z) : string :=
  if v <? 10 then "0" +:+ Number_toString v else Number_toString v.

Definition formatTime (totalSeconds : Z) : string :=
  let hours := floor_div totalSeconds 3600 in
  let minutes := floor_div (JS.rem totalSeconds 3600) 60 in
  let seconds := JS.rem totalSeconds 60 in
  JS.join ":" (map pad_field [hours; minutes; seconds]).

End Double.

(** ** Data model *)

(** An entry of the activity log, as [handleStartPause] builds it. [id] is
    the reading of [Date.now()]; [timestamp] is the time value of the
    [Date] whose ISO-8601 text the entry stores. *)
Module Activity.
Record t : Type := mk {
  id : Z;
  description : string;
  durationSeconds : Z;
  timestamp : Z
}.
End Activity.

(** The callbacks handed to [setInterval]: the wall clock's and the
    stopwatch's. *)
Inductive Callback : Type :=
  | ClockTick
  | TimerTick.

#[global] Instance Callback_eq_dec : EqDecision Callback.
Proof. solve_decision. Defined.

(** The state of the mounted application: the hooks of [ClockScreen], the
    log of [App], the alerts shown so far (newest first) and the table of
    the intervals that are scheduled. *)
Record World : Type := mkWorld {
  currentTime : Z;
  timerRunning : bool;
  timerSeconds : Z;
  timerIntervalRef : option nat;
  activityLog : list Activity.t;
  alerts : list (string * string);
  timers : gmap nat Callback;
  nextTimer : nat
}.

Definition setCurrentTime (v : Z) (w : World) : World :=
  mkWorld v (timerRunning w) (timerSeconds w) (timerIntervalRef w)
          (activityLog w) (alerts w) (timers w) (nextTimer w).

Definition setTimerRunning (f : bool -> bool) (w : World) : World :=
  mkWorld (currentTime w) (f (timerRunning w)) (timerSeconds w) (timerIntervalRef w)
          (activityLog w) (alerts w) (timers w) (nextTimer w).

Definition setTimerSeconds (f : Z -> Z) (w : World) : World :=
  mkWorld (currentTime w) (timerRunning w) (f (timerSeconds w)) (timerIntervalRef w)
          (activityLog w) (alerts w) (timers w) (nextTimer w).

Definition setActivityLog (f : list Activity.t -> list Activity.t) (w : World) : World :=
  mkWorld (currentTime w) (timerRunning w) (timerSeconds w) (timerIntervalRef w)
          (f (activityLog w)) (alerts w) (timers w) (nextTimer w).

Definition setTimerIntervalRef (r : option nat) (w : World) : World :=
  mkWorld (currentTime w) (timerRunning w) (timerSeconds w) r
          (activityLog w) (alerts w) (timers w) (nextTimer w).

Definition Alert_alert (title message : string) (w : World) : World :=
  mkWorld (currentTime w) (timerRunning w) (timerSeconds w) (timerIntervalRef w)
          (activityLog w) ((title, message) :: alerts w) (timers w) (nextTimer w).

(** [setInterval]: schedules the callback under a fresh handle. *)
Definition setInterval (cb : Callback) (w : World) : nat * World :=
  (nextTimer w,
   mkWorld (currentTime w) (timerRunning w) (timerSeconds w) (timerIntervalRef w)
           (activityLog w) (alerts w) (<[nextTimer w := cb]> (timers w))
           (S (nextTimer w))).

(** [clearInterval]: [null] and handles that are not scheduled are ignored. *)
Definition clearInterval (h : option nat) (w : World) : World :=
  match h with
  | None => w
  | Some i =>
      mkWorld (currentTime w) (timerRunning w) (timerSeconds w) (timerIntervalRef w)
              (activityLog w) (alerts w) (delete i (timers w)) (nextTimer w)
  end.

(** ** The activity log (App) *)

(** The updater of [addActivity]: [prevLog => [activity, ...prevLog]]. *)
Definition prepend (activity : Activity.t) (prevLog : list Activity.t) : list Activity.t :=
  activity :: prevLog.

Definition addActivity (activity : Activity.t) (w : World) : World :=
  setActivityLog (prepend activity) w.

(** ** The stopwatch (ClockScreen) *)

(** The effect on [timerRunning]: its body and the cleanup it returns. *)
Definition timerEffect (w : World) : World :=
  if timerRunning w then
    let '(h, w') := setInterval TimerTick w in
    setTimerIntervalRef (Some h) w'
  else clearInterval (timerIntervalRef w) w.

Definition timerEffect_cleanup (w : World) : World :=
  clearInterval (timerIntervalRef w) w.

(** After the handlers of an event, React renders again and, when
    [timerRunning] differs from the previous render, runs the cleanup of
    the effect and then the effect. *)
Definition commit (prevRunning : bool) (w : World) : World :=
  if Bool.eqb prevRunning (timerRunning w) then w
  else timerEffect (timerEffect_cleanup w).

(** [now_id] is the reading of [Date.now()], [now_ts] that of [new Date()]. *)
Definition handleStartPause (now_id now_ts : Z) (w : World) : World :=
  let w1 :=
    if timerRunning w && (timerSeconds w >? 0) then
      Alert_alert "Session Logged" ("Duration: " +:+ formatTime (timerSeconds w))
        (addActivity
           (Activity.mk now_id "Timed Session" (timerSeconds w) now_ts) w)
    else w in
  setTimerRunning negb w1.

Definition handleReset (w : World) : World :=
  setTimerSeconds (fun _ => 0)
    (setTimerRunning (fun _ => false)
       (clearInterval (timerIntervalRef w) w)).

(** The [disabled] property of the Reset button. *)
Definition resetDisabled (w : World) : bool :=
  (timerSeconds w =? 0) && negb (timerRunning w).

(** The application after its first render and its mount effects: the wall
    clock is scheduled, the stopwatch effect clears the [null] handle. *)
Definition mount (now : Z) : World :=
  let w0 := mkWorld now false 0 None [] [] ∅ 1 in
  let '(_, w1) := setInterval ClockTick w0 in
  timerEffect w1.

(** What can happen to the mounted application. *)
Inductive Event : Type :=
  | PressStartPause (now_id now_ts : Z)
  | PressReset
  | IntervalFires (h : nat) (now : Z).

Definition fire (h : nat) (now : Z) (w : World) : World :=
  match timers w !! h with
  | Some ClockTick => setCurrentTime now w
  | Some TimerTick => setTimerSeconds (fun prevSeconds => prevSeconds + 1) w
  | None => w
  end.

(** A press of Start/Pause with the render that follows. *)
Definition toggle (now_id now_ts : Z) (w : World) : World :=
  commit (timerRunning w) (handleStartPause now_id now_ts w).

(** A call of [handleReset] with the render that follows. *)
Definition reset (w : World) : World :=
  commit (timerRunning w) (handleReset w).

Definition step (w : World) (e : Event) : World :=
  match e with
  | PressStartPause now_id now_ts => toggle now_id now_ts w
  | PressReset => if resetDisabled w then w else reset w
  | IntervalFires h now => fire h now w
  end.

Definition run (w : World) (evs : list Event) : World := foldl step w evs.

Definition reachable (w : World) : Prop :=
  ∃ now evs, w = run (mount now) evs.

(** The stopwatch tick that is pending, if any. *)
Definition pendingTick (w : World) (h : nat) : Prop :=
  timers w !! h = Some TimerTick.

#[global] Instance pendingTick_dec (w : World) (h : nat) : Decision (pendingTick w h).
Proof. unfold pendingTick. apply _. Defined.

Definition durations (w : World) : list Z :=
  map Activity.durationSeconds (activityLog w).

(** A field of the [HH:MM:SS] text, in the words of the specification: the
    decimal digits of [v], padded with zeros to [width] characters and not
    beyond. *)
Definition padded_decimal (width : nat) (v : Z) (s : string) : Prop :=
  decimal_value s = Some v
  ∧ (width ≤ String.length s)%nat
  ∧ ((width < String.length s)%nat → ∃ c rest, s = String c rest ∧ c ≠ "0"%char).

(** The firing of the interval whose handle [timerIntervalRef] holds: the
    stopwatch's tick, when the stopwatch runs. *)
Definition tick (now : Z) (w : World) : World :=
  match timerIntervalRef w with
  | Some h => fire h now w
  | None => w
  end.

Definition ticks (n : nat) (now : Z) (w : World) : World :=
  Nat.iter n (tick now) w.

(** The readings of [Date.now()] that a run of events hands to
    [handleStartPause], in the order of the presses. *)
Definition press_ids (evs : list Event) : list Z :=
  omap (λ e, match e with PressStartPause now_id _ => Some now_id | _ => None end) evs.

Definition ids (w : World) : list Z :=
  map Activity.id (activityLog w).

(** The end-to-end scenario of the specification, from the mounted
    application: Reset, Start, five ticks, Pause; then Start, three ticks,
    Pause. [t1] .. [t4] are the clock readings at the four presses of
    Start/Pause, [t] the one at the ticks. *)
Definition first_session (t0 t1 t2 t : Z) : World :=
  toggle t2 t2 (ticks 5 t (toggle t1 t1 (step (mount t0) PressReset))).

Definition second_session (t3 t4 t : Z) (w : World) : World :=
  toggle t4 t4 (ticks 3 t (toggle t3 t3 w)).

(** What every state of a run satisfies. *)
Record Inv (w : World) : Prop := mkInv {
  inv_seconds : 0 ≤ timerSeconds w;
  inv_tick : ∀ h, pendingTick w h → timerRunning w = true ∧ timerIntervalRef w = Some h;
  inv_running : timerRunning w = true → ∃ h, timerIntervalRef w = Some h ∧ pendingTick w h;
  inv_fresh : ∀ h, is_Some (timers w !! h) → (h < nextTimer w)%nat;
  inv_clock : timers w !! 1%nat = Some ClockTick;
  inv_ref : ∀ h, timerIntervalRef w = Some h → timers w !! h ≠ Some ClockTick;
  inv_log : Forall (λ a, 1 ≤ Activity.durationSeconds a) (activityLog w)
}.

(** ** Unmounting [ClockScreen]

    The cleanups that the two effects return. [clockInterval] is the handle
    that [setInterval] gave the wall clock at mount, which the cleanup of
    the first effect keeps in its closure. *)
Definition clockInterval : nat := 1.

Definition clockEffect_cleanup (w : World) : World :=
  clearInterval (Some clockInterval) w.

Definition unmount (w : World) : World :=
  timerEffect_cleanup (clockEffect_cleanup w).

(** ** The log screen (ActivityLogScreen) *)

(** What [renderActivityItem] writes for an entry: the description, the
    duration line, and the instant that the last line shows in the locale
    of the device. *)
Record Row : Type := mkRow {
  row_description : string;
  row_duration : string;
  row_logged : Z
}.

Definition renderActivityItem (item : Activity.t) : Row :=
  mkRow (Activity.description item)
        (renderDurationText (Activity.durationSeconds item))
        (Activity.timestamp item).

(** [keyExtractor]: [item.id.toString()]. *)
Definition keyExtractor (item : Activity.t) : string :=
  JS.Number_toString (Activity.id item).

(** The body of the screen under its title: a message when the log is
    empty, a [FlatList] of keyed rows otherwise. *)
Inductive LogView : Type :=
  | NoActivities (message : string)
  | FlatList (rows : list (string * Row)).

Definition ActivityLogScreen (activityLog : list Activity.t) : LogView :=
  if (length activityLog =? 0)%nat
  then NoActivities "No activities logged yet. Start the timer!"
  else FlatList (map (λ item, (keyExtractor item, renderActivityItem item)) activityLog).

(** The message of the alert that [handleStartPause] shows for a session. *)
Definition alert_of (item : Activity.t) : string * string :=
  ("Session Logged", "Duration: " +:+ formatTime (Activity.durationSeconds item)).

(** ** The tab bar (App) *)

Inductive Icon : Type :=
  | Clock
  | Settings
  | History
  | Info.

(** The chain of comparisons of [tabBarIcon]: [IconComponent] stays
    undefined ([None]) when no name matches. *)
Definition tabBarIcon (routeName : string) : option Icon :=
  if String.eqb routeName "Time" then Some Clock
  else if String.eqb routeName "Settings" then Some Settings
  else if String.eqb routeName "Log" then Some History
  else if String.eqb routeName "About" then Some Info
  else None.

(** The names of the [Tab.Screen] elements, in their order. *)
Definition tabScreens : list string := ["Time"; "Settings"; "Log"; "About"].

(** The events of a run that are firings of an interval. *)
Definition is_firing (e : Event) : bool :=
  match e with IntervalFires _ _ => true | _ => false end.

Definition firings (evs : list Event) : nat :=
  length (List.filter is_firing evs).

(** ** Proof automation *)

(** Lookups in the table of intervals after [setInterval] and
    [clearInterval]. *)
Ltac table :=
  unfold pendingTick in *; cbn in *; intros;
  repeat match goal with
    | H : context [delete _ _ !! _ = Some _] |- _ => rewrite lookup_delete_Some in H
    | H : context [<[_ := _]> _ !! _ = Some _] |- _ => rewrite lookup_insert_Some in H
    | H : context [is_Some (delete _ _ !! _)] |- _ => rewrite lookup_delete_is_Some in H
    | H : context [is_Some (<[_ := _]> _ !! _)] |- _ => rewrite lookup_insert_is_Some in H
    | |- context [delete _ _ !! _ = Some _] => rewrite lookup_delete_Some
    | |- context [<[_ := _]> _ !! _ = Some _] => rewrite lookup_insert_Some
    end.

(** Closes what [table] leaves, from the invariant. *)
Ltac finish :=
  repeat match goal with
    | H : _ ∧ _ |- _ => destruct H
    | H : Some _ = Some _ |- _ => injection H as <-
    | |- ¬ _ => intros ?
    end;
  try match goal with
    | Ht : ∀ h, _ !! h = Some TimerTick → _, H : _ !! _ = Some TimerTick |- _ =>
        destruct (Ht _ H) as [? ?]; try done; try congruence
    end;
  try match goal with
    | Hf : ∀ h, is_Some _ → _ |- (_ < _)%nat => apply Hf; tauto
    end;
  try tauto; try done.

(** Unfolds the handlers and the render that follows them. *)
Ltac handlers :=
  unfold toggle, reset, handleStartPause, handleReset, commit, timerEffect,
    timerEffect_cleanup, pendingTick; cbn.

(** * Properties *)

(** ** Decimal strings *)

Section Decimal.

Lemma digit_cases (d : Z) :
  0 ≤ d < 10 →
  d = 0 ∨ d = 1 ∨ d = 2 ∨ d = 3 ∨ d = 4 ∨ d = 5 ∨ d = 6 ∨ d = 7 ∨ d = 8 ∨ d = 9.
Proof. lia. Qed.

Lemma digit_value_char (d : Z) :
  0 ≤ d < 10 → digit_value (JS.digit_char d) = Some d.
Proof.
  intros Hd. destruct (digit_cases d Hd) as [->|[->|[->|[->|[->|[->|[->|[->|[->| ->]]]]]]]]];
    reflexivity.
Qed.

Lemma digit_char_nonzero (d : Z) :
  1 ≤ d < 10 → JS.digit_char d ≠ "0"%char.
Proof.
  intros Hd. assert (H : 0 ≤ d < 10) by lia.
  destruct (digit_cases d H) as [->|[->|[->|[->|[->|[->|[->|[->|[->| ->]]]]]]]]];
    try lia; discriminate.
Qed.

Lemma append_length (s1 s2 : string) :
  String.length (s1 +:+ s2) = (String.length s1 + String.length s2)%nat.
Proof. induction s1 as [|c s1 IH]; simpl; [done | by rewrite IH]. Qed.

Lemma decimal_acc_app (s1 s2 : string) (acc : Z) :
  decimal_acc acc (s1 +:+ s2) =
    match decimal_acc acc s1 with Some a => decimal_acc a s2 | None => None end.
Proof.
  revert acc. induction s1 as [|c s1 IH]; intros acc; simpl; [done|].
  destruct (digit_value c); [apply IH | done].
Qed.

Lemma half_fuel (fuel : nat) (n : Z) :
  10 ≤ n < 2 ^ Z.of_nat (S fuel) → 1 ≤ n / 10 < 2 ^ Z.of_nat fuel.
Proof.
  intros [Hlo Hhi]. rewrite Nat2Z.inj_succ, Z.pow_succ_r in Hhi by lia.
  split; [apply Z.div_le_lower_bound; lia|].
  apply Z.div_lt_upper_bound; lia.
Qed.

Lemma digits_fuel_value (fuel : nat) (n : Z) :
  0 ≤ n < 2 ^ Z.of_nat fuel → decimal_acc 0 (JS.digits_fuel fuel n) = Some n.
Proof.
  revert n. induction fuel as [|fuel IH]; intros n Hn.
  - assert (n = 0) as -> by (simpl in Hn; lia). done.
  - cbn [JS.digits_fuel]. destruct (Z.ltb_spec n 10) as [Hlt|Hge].
    + cbn [decimal_acc]. rewrite digit_value_char by lia. f_equal; lia.
    + rewrite decimal_acc_app, IH by (pose proof (half_fuel fuel n); lia).
      cbn [decimal_acc]. rewrite digit_value_char by (apply Z.mod_pos_bound; lia).
      pose proof (Z.div_mod n 10). f_equal; lia.
Qed.

Lemma digits_fuel_S (fuel : nat) (n : Z) :
  JS.digits_fuel (S fuel) n =
    if n <? 10 then String (JS.digit_char n) EmptyString
    else JS.digits_fuel fuel (n / 10) +:+ String (JS.digit_char (n mod 10)) EmptyString.
Proof. reflexivity. Qed.

Lemma digits_fuel_nonempty (fuel : nat) (n : Z) :
  (1 ≤ String.length (JS.digits_fuel (S fuel) n))%nat.
Proof.
  cbn [JS.digits_fuel]. destruct (n <? 10); simpl; [lia|].
  rewrite append_length. simpl. lia.
Qed.

Lemma digits_fuel_leading (fuel : nat) (n : Z) :
  1 ≤ n < 2 ^ Z.of_nat fuel →
  ∃ c rest, JS.digits_fuel fuel n = String c rest ∧ c ≠ "0"%char.
Proof.
  revert n. induction fuel as [|fuel IH]; intros n Hn.
  - simpl in Hn. lia.
  - cbn [JS.digits_fuel]. destruct (Z.ltb_spec n 10) as [Hlt|Hge].
    + eexists _, _. split; [done|]. apply digit_char_nonzero. lia.
    + destruct (IH (n / 10)) as (c & rest & -> & Hc); [apply half_fuel; lia|].
      eexists _, _. split; [simpl; reflexivity | done].
Qed.

Lemma digits_bound (n : Z) :
  0 ≤ n → 0 ≤ n < 2 ^ Z.of_nat (S (Z.to_nat (Z.log2 n))).
Proof.
  intros Hn. split; [done|].
  rewrite Nat2Z.inj_succ, Z2Nat.id by apply Z.log2_nonneg.
  destruct (Z.eq_dec n 0) as [->|Hne]; [done|].
  apply Z.log2_spec. lia.
Qed.

(** The digits written for [n ≥ 0] read back as [n]: the fuel of
    [JS.digits] never runs out. *)
Lemma Number_toString_value (n : Z) :
  0 ≤ n → decimal_acc 0 (JS.Number_toString n) = Some n.
Proof.
  intros Hn. unfold JS.Number_toString.
  destruct (Z.ltb_spec n 0); [lia|].
  apply digits_fuel_value, digits_bound, Hn.
Qed.

Lemma Number_toString_small (n : Z) :
  0 ≤ n < 10 → JS.Number_toString n = String (JS.digit_char n) EmptyString.
Proof.
  intros Hn. unfold JS.Number_toString, JS.digits.
  destruct (Z.ltb_spec n 0); [lia|]. cbn [JS.digits_fuel].
  destruct (Z.ltb_spec n 10); [done | lia].
Qed.

Lemma Number_toString_large (n : Z) :
  10 ≤ n →
  (2 ≤ String.length (JS.Number_toString n))%nat
  ∧ ∃ c rest, JS.Number_toString n = String c rest ∧ c ≠ "0"%char.
Proof.
  intros Hn. unfold JS.Number_toString.
  destruct (Z.ltb_spec n 0); [lia|]. split.
  - unfold JS.digits.
    assert (3 ≤ Z.log2 n) as Hlog by (apply (Z.log2_le_pow2 n 3); lia).
    destruct (Z.to_nat (Z.log2 n)) as [|k] eqn:Hk; [lia|].
    rewrite digits_fuel_S. destruct (Z.ltb_spec n 10); [lia|].
    rewrite append_length. pose proof (digits_fuel_nonempty k (n / 10)).
    cbn [String.length]. lia.
  - apply digits_fuel_leading. pose proof (digits_bound n). lia.
Qed.

Lemma Number_toString_two_digits (n : Z) :
  10 ≤ n < 100 → String.length (JS.Number_toString n) = 2%nat.
Proof.
  intros Hn. unfold JS.Number_toString, JS.digits.
  destruct (Z.ltb_spec n 0); [lia|].
  assert (3 ≤ Z.log2 n) as Hlog by (apply (Z.log2_le_pow2 n 3); lia).
  destruct (Z.to_nat (Z.log2 n)) as [|[|k]] eqn:Hk; [lia..|].
  cbn [JS.digits_fuel]. destruct (Z.ltb_spec n 10); [lia|].
  destruct (Z.ltb_spec (n / 10) 10) as [_|Hge]; [done|].
  assert (n / 10 < 10) by (apply Z.div_lt_upper_bound; lia). lia.
Qed.

End Decimal.

(** ** [formatTime] and the rendering of the log *)

Section Formatting.

Lemma formatTime_fields (totalSeconds : Z) :
  formatTime totalSeconds =
    pad_field (totalSeconds / 3600) +:+ ":" +:+
    pad_field (Z.rem totalSeconds 3600 / 60) +:+ ":" +:+
    pad_field (Z.rem totalSeconds 60).
Proof. reflexivity. Qed.

Lemma pad_field_padded (v : Z) :
  0 ≤ v → padded_decimal 2 v (pad_field v).
Proof.
  intros Hv. unfold pad_field, padded_decimal.
  destruct (Z.ltb_spec v 10) as [Hlt|Hge].
  - rewrite Number_toString_small by lia.
    change ("0" +:+ String (JS.digit_char v) "")
      with (String "0" (String (JS.digit_char v) "")).
    cbn [String.length].
    split; [|split; [lia | intros ?; lia]].
    cbn [decimal_value decimal_acc]. change (digit_value "0") with (Some 0).
    cbn iota. rewrite digit_value_char by lia. f_equal; lia.
  - destruct (Number_toString_large v Hge) as (Hlen & c & rest & Heq & Hc).
    split; [|split; [done | by eauto]].
    pose proof (Number_toString_value v Hv) as Hval.
    rewrite Heq in Hval |- *. exact Hval.
Qed.

Lemma pad_field_width (v : Z) :
  0 ≤ v < 100 → String.length (pad_field v) = 2%nat.
Proof.
  intros Hv. unfold pad_field. destruct (Z.ltb_spec v 10) as [Hlt|Hge].
  - by rewrite Number_toString_small by lia.
  - apply Number_toString_two_digits. lia.
Qed.

(** On one or two digits [padStart(2, '0')] and the conditional of
    [formatTime] write the same field. *)
Lemma padStart_pad_field (v : Z) :
  0 ≤ v → JS.padStart 2 "0" (JS.Number_toString v) = pad_field v.
Proof.
  intros Hv. unfold pad_field, JS.padStart.
  destruct (Z.ltb_spec v 10) as [Hlt|Hge].
  - by rewrite Number_toString_small by lia.
  - destruct (Number_toString_large v Hge) as (Hlen & _).
    destruct (Nat.leb_spec 2 (String.length (JS.Number_toString v))); [done | lia].
Qed.

Lemma fields_nonneg (s : Z) :
  0 ≤ s →
  0 ≤ s / 3600
  ∧ Z.rem s 3600 = s mod 3600 ∧ 0 ≤ (s mod 3600) / 60 < 60
  ∧ Z.rem s 60 = s mod 60 ∧ 0 ≤ s mod 60 < 60.
Proof.
  intros Hs. rewrite !Z.rem_mod_nonneg by lia.
  pose proof (Z.mod_pos_bound s 3600). pose proof (Z.mod_pos_bound s 60).
  repeat split; try lia.
  - apply Z.div_pos; lia.
  - apply Z.div_pos; lia.
  - apply Z.div_lt_upper_bound; lia.
Qed.

End Formatting.

(** On exact integers: for [totalSeconds ≥ 0] the text of [formatTime] is
    [HH:MM:SS] where the fields are the decimal digits of the quotient and
    the remainders, padded with zeros to two digits; the minutes and the
    seconds have exactly two digits. *)
Lemma formatTime_exact_fields (totalSeconds : Z) :
  0 ≤ totalSeconds →
  ∃ HH MM SS : string,
    formatTime totalSeconds = HH +:+ ":" +:+ MM +:+ ":" +:+ SS
    ∧ padded_decimal 2 (totalSeconds / 3600) HH
    ∧ padded_decimal 2 ((totalSeconds mod 3600) / 60) MM
    ∧ String.length MM = 2%nat
    ∧ padded_decimal 2 (totalSeconds mod 60) SS
    ∧ String.length SS = 2%nat.
Proof.
  intros Hs. destruct (fields_nonneg totalSeconds Hs) as (Hh & Hr1 & Hm & Hr2 & Hsec).
  exists (pad_field (totalSeconds / 3600)), (pad_field ((totalSeconds mod 3600) / 60)),
    (pad_field (totalSeconds mod 60)).
  rewrite formatTime_fields, Hr1, Hr2.
  split; [done|].
  split; [by apply pad_field_padded|].
  split; [apply pad_field_padded; lia|].
  split; [apply pad_field_width; lia|].
  split; [apply pad_field_padded; lia|].
  apply pad_field_width; lia.
Qed.

(** C7. For every integer [durationSeconds ≥ 0] the duration written by
    [renderActivityItem] is, character for character, the string that
    [formatTime] returns; the whole line of the log is the message of the
    alert shown when the session was logged. *)
Theorem renderDuration_formatTime (durationSeconds : Z) :
  0 ≤ durationSeconds →
  renderDuration durationSeconds = formatTime durationSeconds
  ∧ renderDurationText durationSeconds = "Duration: " +:+ formatTime durationSeconds.
Proof.
  intros Hd. destruct (fields_nonneg durationSeconds Hd) as (Hh & Hr1 & Hm & Hr2 & Hsec).
  assert (renderDuration durationSeconds = formatTime durationSeconds) as Heq.
  { rewrite formatTime_fields. unfold renderDuration, JS.floor_div, JS.rem.
    rewrite !padStart_pad_field; [done | rewrite Hr2; lia | rewrite Hr1; lia | done]. }
  split; [done|]. unfold renderDurationText. by rewrite Heq.
Qed.

Lemma renderDuration_formatTime_witness :
  renderDuration 3661 = formatTime 3661
  ∧ renderDurationText 3661 = "Duration: " +:+ formatTime 3661.
Proof. apply (renderDuration_formatTime 3661). lia. Defined.

(** ** The stopwatch: what a run preserves *)

Section Invariant.

Lemma mount_Inv (now : Z) : Inv (mount now).
Proof.
  split; table.
  - done.
  - rewrite lookup_empty in *. by destruct H as [[_ [=]]|[_ [=]]].
  - done.
  - rewrite lookup_empty, is_Some_alt in *. destruct H as [<-|[_ []]]. lia.
  - auto.
  - done.
  - constructor.
Qed.

Lemma fresh_handle (w : World) :
  Inv w → timers w !! nextTimer w = None.
Proof.
  intros HI. destruct (timers w !! nextTimer w) eqn:E; [|done].
  pose proof (inv_fresh w HI (nextTimer w) (mk_is_Some _ _ E)). lia.
Qed.

Lemma toggle_Inv (now_id now_ts : Z) (w : World) :
  Inv w → Inv (toggle now_id now_ts w).
Proof.
  intros HI. pose proof (fresh_handle w HI) as Hnxt.
  destruct HI as [Hs Ht Hr Hf Hc Href Hl].
  destruct w as [ct run secs ref log al T nxt]. table.
  unfold toggle, handleStartPause, commit, timerEffect, timerEffect_cleanup. cbn.
  destruct run; cbn.
  - (* pause: the interval of the ref is cleared *)
    destruct (Hr eq_refl) as (h & -> & Hh).
    assert (h ≠ 1%nat) by (intros ->; congruence).
    destruct (Z.gtb_spec secs 0) as [Hpos|Hzero]; split; table; try done.
    + destruct H0 as (Hne & _ & Hh0). by destruct (Ht _ Hh0) as [_ [= ->]].
    + apply Hf. tauto.
    + injection H0 as <-. tauto.
    + constructor; [cbn; lia | done].
    + destruct H0 as (Hne & _ & Hh0). by destruct (Ht _ Hh0) as [_ [= ->]].
    + apply Hf. tauto.
    + injection H0 as <-. tauto.
  - (* start: a fresh interval is scheduled and kept in the ref *)
    assert (nxt ≠ 1%nat) by (intros ->; congruence).
    assert (∀ h, T !! h ≠ Some TimerTick) as Hnone
      by (intros h Hh; by destruct (Ht h Hh)).
    split; destruct ref as [r|]; table; try done.
    + destruct H0 as [[-> _]|(_ & _ & Hh)]; [done | by destruct (Hnone h)].
    + destruct H0 as [[-> _]|(_ & Hh)]; [done | by destruct (Hnone h)].
    + exists nxt. split; [done | apply lookup_insert_eq].
    + exists nxt. split; [done | apply lookup_insert_eq].
    + destruct H0 as [<-|(_ & _ & Hh)]; [lia | apply Hf in Hh; lia].
    + destruct H0 as [<-|(_ & Hh)]; [lia | apply Hf in Hh; lia].
    + right. split_and!; try done. intros ->. by apply (Href 1%nat).
    + right. done.
    + injection H0 as <-. intros [[_ [=]]|[? _]]. done.
    + injection H0 as <-. intros [[_ [=]]|[? _]]. done.
Qed.

Lemma reset_Inv (w : World) : Inv w → Inv (reset w).
Proof.
  intros [Hs Ht Hr Hf Hc Href Hl].
  destruct w as [ct run secs ref log al T nxt]. table.
  assert (∀ r, ref = Some r → r ≠ 1%nat) as Hr1
    by (intros r -> ->; by apply (Href 1%nat)).
  unfold reset, handleReset, commit, timerEffect, timerEffect_cleanup. cbn.
  destruct run, ref as [r|]; cbn; split; table; try done;
    try specialize (Hr1 r eq_refl);
    try (by destruct (Hr eq_refl) as (? & [=] & _)); finish.
Qed.

Lemma fire_Inv (h : nat) (now : Z) (w : World) : Inv w → Inv (fire h now w).
Proof.
  intros HI. unfold fire. destruct (timers w !! h) as [[]|]; [| |done];
    destruct HI; split; table; try done; try lia; auto.
Qed.

Lemma step_Inv (w : World) (e : Event) : Inv w → Inv (step w e).
Proof.
  intros HI. destruct e as [now_id now_ts| |h now]; cbn.
  - by apply toggle_Inv.
  - destruct (resetDisabled w); [done | by apply reset_Inv].
  - by apply fire_Inv.
Qed.

Lemma run_Inv (evs : list Event) (w : World) : Inv w → Inv (run w evs).
Proof.
  revert w. induction evs as [|e evs IH]; intros w HI; [done|].
  apply IH, step_Inv, HI.
Qed.

Lemma reachable_Inv (w : World) : reachable w → Inv w.
Proof. intros (now & evs & ->). apply run_Inv, mount_Inv. Qed.

End Invariant.

(** ** What the handlers change *)

Section Handlers.

Lemma toggle_timerSeconds (a b : Z) (w : World) :
  timerSeconds (toggle a b w) = timerSeconds w.
Proof.
  destruct w as [ct run secs ref log al T nxt]. handlers.
  by destruct run, (secs >? 0), ref.
Qed.

Lemma toggle_timerRunning (a b : Z) (w : World) :
  timerRunning (toggle a b w) = negb (timerRunning w).
Proof.
  destruct w as [ct run secs ref log al T nxt]. handlers.
  by destruct run, (secs >? 0), ref.
Qed.

Lemma toggle_activityLog (a b : Z) (w : World) :
  activityLog (toggle a b w) =
    if timerRunning w && (timerSeconds w >? 0)
    then Activity.mk a "Timed Session" (timerSeconds w) b :: activityLog w
    else activityLog w.
Proof.
  destruct w as [ct run secs ref log al T nxt]. handlers.
  by destruct run, (secs >? 0), ref.
Qed.

Lemma toggle_alerts (a b : Z) (w : World) :
  alerts (toggle a b w) =
    if timerRunning w && (timerSeconds w >? 0)
    then ("Session Logged", "Duration: " +:+ formatTime (timerSeconds w)) :: alerts w
    else alerts w.
Proof.
  destruct w as [ct run secs ref log al T nxt]. handlers.
  by destruct run, (secs >? 0), ref.
Qed.

(** Starting schedules the tick under the handle that the ref then holds. *)
Lemma toggle_start_schedules (a b : Z) (w : World) :
  timerRunning w = false →
  ∃ h, timerIntervalRef (toggle a b w) = Some h ∧ pendingTick (toggle a b w) h.
Proof.
  destruct w as [ct run secs ref log al T nxt]. cbn. intros ->. handlers.
  exists nxt. destruct ref; cbn; by rewrite lookup_insert_eq.
Qed.

Lemma reset_fields (w : World) :
  timerSeconds (reset w) = 0 ∧ timerRunning (reset w) = false
  ∧ activityLog (reset w) = activityLog w ∧ alerts (reset w) = alerts w.
Proof.
  destruct w as [ct run secs ref log al T nxt]. handlers.
  by destruct run, ref.
Qed.

Lemma fire_fields (h : nat) (now : Z) (w : World) :
  timerRunning (fire h now w) = timerRunning w
  ∧ activityLog (fire h now w) = activityLog w
  ∧ alerts (fire h now w) = alerts w
  ∧ timers (fire h now w) = timers w
  ∧ timerIntervalRef (fire h now w) = timerIntervalRef w
  ∧ timerSeconds (fire h now w) =
      if decide (pendingTick w h) then timerSeconds w + 1 else timerSeconds w.
Proof.
  unfold fire, pendingTick. case_decide as Hp.
  - by rewrite Hp.
  - by destruct (timers w !! h) as [[]|].
Qed.



Lemma step_log_suffix (w : World) (e : Event) :
  activityLog w `suffix_of` activityLog (step w e).
Proof.
  destruct e as [a b| |h now]; cbn.
  - rewrite toggle_activityLog.
    destruct (timerRunning w && (timerSeconds w >? 0)); [by apply suffix_cons_r | done].
  - destruct (resetDisabled w); [done|].
    by destruct (reset_fields w) as (_ & _ & -> & _).
  - by destruct (fire_fields h now w) as (_ & -> & _).
Qed.

Lemma run_log_suffix (evs : list Event) (w : World) :
  activityLog w `suffix_of` activityLog (run w evs).
Proof.
  revert w. induction evs as [|e evs IH]; intros w; [done|].
  etrans; [apply (step_log_suffix w e) | apply IH].
Qed.

Lemma step_ids (w : World) (e : Event) :
  ids (step w e) `sublist_of` press_ids [e] ++ ids w.
Proof.
  unfold ids. destruct e as [a b| |h now]; cbn.
  - rewrite toggle_activityLog.
    destruct (timerRunning w && (timerSeconds w >? 0)); [done | by apply sublist_cons].
  - destruct (resetDisabled w); [done|].
    by destruct (reset_fields w) as (_ & _ & -> & _).
  - by destruct (fire_fields h now w) as (_ & -> & _).
Qed.

Lemma run_ids (evs : list Event) (w : World) :
  ids (run w evs) `sublist_of` reverse (press_ids evs) ++ ids w.
Proof.
  revert w. induction evs as [|e evs IH]; intros w; [done|].
  etrans; [apply (IH (step w e))|].
  change (e :: evs) with ([e] ++ evs). unfold press_ids.
  rewrite omap_app, reverse_app, <- app_assoc.
  apply sublist_app; [done|].
  etrans; [apply step_ids|]. unfold press_ids.
  apply sublist_app; [|done]. cbn. by destruct e.
Qed.

(** When the readings of [Date.now()] at the presses of Start/Pause are
    pairwise distinct, so are the ids in the log. *)
Lemma distinct_readings_distinct_ids (now : Z) (evs : list Event) :
  NoDup (press_ids evs) → NoDup (ids (run (mount now) evs)).
Proof.
  intros Hnd. eapply sublist_NoDup; [|apply run_ids].
  cbn. by rewrite app_nil_r, reverse_Permutation.
Qed.

End Handlers.

(** ** The stopwatch and the log *)

(** C1. In every state (so in every state a run reaches) where the
    stopwatch runs, pressing Start/Pause stops it and, when
    [timerSeconds > 0], puts exactly one new session at the head of the log,
    with [durationSeconds] the current [timerSeconds]; when
    [timerSeconds = 0] the log is left as it was. *)
Theorem stop_records_session (w : World) (now_id now_ts : Z) :
  timerRunning w = true →
  timerRunning (step w (PressStartPause now_id now_ts)) = false
  ∧ (0 < timerSeconds w →
       activityLog (step w (PressStartPause now_id now_ts)) =
         Activity.mk now_id "Timed Session" (timerSeconds w) now_ts :: activityLog w)
  ∧ (timerSeconds w = 0 →
       activityLog (step w (PressStartPause now_id now_ts)) = activityLog w).
Proof.
  intros Hrun. cbn [step].
  rewrite toggle_timerRunning, toggle_activityLog, Hrun. cbn [negb andb].
  split_and!; [done | |].
  - intros Hpos. by destruct (Z.gtb_spec (timerSeconds w) 0); [|lia].
  - by intros ->.
Qed.

Lemma stop_records_session_witness :
  activityLog
    (step (run (mount 0) [PressStartPause 10 11; IntervalFires 2 12])
       (PressStartPause 20 21)) =
    [Activity.mk 20 "Timed Session" 1 21].
Proof.
  apply (stop_records_session
           (run (mount 0) [PressStartPause 10 11; IntervalFires 2 12]) 20 21);
    [reflexivity | vm_compute; reflexivity].
Defined.

(** C2, as the code has it. From the mounted application with an empty log,
    Reset, Start, five ticks, Pause leave [formatTime timerSeconds] at
    [00:00:05] and a log whose only entry lasts 5 seconds; then Start, three
    ticks, Pause leave a log of exactly two entries, the head lasting 8
    seconds (the stopwatch goes on from 5) and the previous one still 5. *)
Theorem end_to_end_cumulative (t0 t1 t2 t3 t4 t : Z) :
  formatTime (timerSeconds (first_session t0 t1 t2 t)) = "00:00:05"
  ∧ durations (first_session t0 t1 t2 t) = [5]
  ∧ durations (second_session t3 t4 t (first_session t0 t1 t2 t)) = [8; 5]
  ∧ timerSeconds (second_session t3 t4 t (first_session t0 t1 t2 t)) = 8.
Proof. by vm_compute. Qed.

(** C2 fails as it is written: after the second Pause the head of the log
    lasts 8 seconds, not 3. *)
Lemma end_to_end_head_is_not_3 :
  ¬ (formatTime (timerSeconds (first_session 0 1000 6000 0)) = "00:00:05"
     ∧ durations (first_session 0 1000 6000 0) !! 0%nat = Some 5
     ∧ length (activityLog (second_session 7000 10000 0 (first_session 0 1000 6000 0))) = 2%nat
     ∧ durations (second_session 7000 10000 0 (first_session 0 1000 6000 0)) !! 0%nat = Some 3
     ∧ durations (second_session 7000 10000 0 (first_session 0 1000 6000 0)) !! 1%nat = Some 5).
Proof. intros (_ & _ & _ & H & _). vm_compute in H. discriminate. Qed.

(** C4. In every state [handleReset] (and a press of Reset) leaves
    [timerSeconds = 0] and [timerRunning = false] and does not touch the
    log; in every state of a run no stopwatch tick is pending afterwards,
    so that an interval firing later leaves [timerSeconds] at 0. *)
Theorem reset_discards (w w' : World) :
  w' = reset w ∨ w' = step w PressReset →
  timerSeconds w' = 0
  ∧ timerRunning w' = false
  ∧ activityLog w' = activityLog w
  ∧ (reachable w →
       (∀ h, ¬ pendingTick w' h) ∧ (∀ h now, timerSeconds (fire h now w') = 0)).
Proof.
  intros Hw'.
  assert (timerSeconds w' = 0 ∧ timerRunning w' = false
          ∧ activityLog w' = activityLog w ∧ (Inv w → Inv w')) as (Hs & Hr & Hl & HI).
  { destruct Hw' as [->| ->].
    - destruct (reset_fields w) as (? & ? & ? & _). eauto using reset_Inv.
    - cbn. unfold resetDisabled.
      destruct (Z.eqb_spec (timerSeconds w) 0), (timerRunning w) eqn:?; cbn;
        first [ by eauto
              | by destruct (reset_fields w) as (? & ? & ? & _); eauto using reset_Inv ]. }
  split_and!; try done.
  intros Hreach. apply reachable_Inv, HI in Hreach.
  assert (∀ h, ¬ pendingTick w' h) as Hnone.
  { intros h Hp. destruct (inv_tick w' Hreach h Hp) as [? _]. congruence. }
  split; [done|]. intros h now.
  destruct (fire_fields h now w') as (_ & _ & _ & _ & _ & ->).
  by rewrite decide_False.
Qed.

Lemma reset_discards_witness :
  timerSeconds
    (fire 2 9 (reset (run (mount 0) [PressStartPause 1 1; IntervalFires 2 2]))) = 0.
Proof.
  apply (reset_discards (run (mount 0) [PressStartPause 1 1; IntervalFires 2 2]) _
           (or_introl eq_refl)).
  exists 0, [PressStartPause 1 1; IntervalFires 2 2]. reflexivity.
Defined.

(** C5 fails as it is written: [addActivity] does not look at the duration,
    a session of 0 seconds is put in the log like any other. *)
Lemma record_zero_duration_changes_log :
  activityLog (addActivity (Activity.mk 1000 "Timed Session" 0 1000) (mount 0))
  ≠ activityLog (mount 0).
Proof. vm_compute. discriminate. Qed.

(** C5, as the code has it. [addActivity] with a session whose
    [durationSeconds] is 0 raises nothing and shows nothing to the user, but
    it is not a no-op: the session is put at the head of the log. Sessions
    of 0 seconds are kept out by the caller: [handleStartPause] logs only
    when [timerSeconds > 0], so every session in the log of a run lasts at
    least 1 second. *)
Theorem record_zero_duration (s : Activity.t) (w : World) :
  Activity.durationSeconds s = 0 →
  activityLog (addActivity s w) = s :: activityLog w
  ∧ alerts (addActivity s w) = alerts w
  ∧ (reachable w → Forall (λ a, 1 ≤ Activity.durationSeconds a) (activityLog w)).
Proof.
  intros _. split_and!; [done | done |].
  intros Hreach. apply inv_log, reachable_Inv, Hreach.
Qed.

Lemma record_zero_duration_witness :
  activityLog (addActivity (Activity.mk 1000 "Timed Session" 0 1000) (mount 0)) =
    Activity.mk 1000 "Timed Session" 0 1000 :: activityLog (mount 0).
Proof.
  apply (record_zero_duration (Activity.mk 1000 "Timed Session" 0 1000) (mount 0)).
  reflexivity.
Defined.

(** C6. [addActivity] turns the log [L] into [s :: L], and nothing that can
    happen to the application changes or removes an entry: the log before
    an event, and before a run of events, is a suffix of the log after it. *)
Theorem log_grows_at_head :
  (∀ (s : Activity.t) (L : list Activity.t), prepend s L = s :: L)
  ∧ (∀ (s : Activity.t) (w : World), activityLog (addActivity s w) = s :: activityLog w)
  ∧ (∀ (w : World) (e : Event), activityLog w `suffix_of` activityLog (step w e))
  ∧ (∀ (w : World) (evs : list Event), activityLog w `suffix_of` activityLog (run w evs)).
Proof.
  split_and!; [done | done | apply step_log_suffix |].
  intros w evs. apply run_log_suffix.
Qed.

(** C8 on the code. The id of a session is the reading of [Date.now()], a
    number of milliseconds: when the clock reads the same at two Pauses (the
    presses follow each other within a millisecond, or the clock was set
    back in between), the two sessions carry the same id. *)
Theorem equal_readings_equal_ids :
  ids (run (mount 0)
         [PressStartPause 1000 1000; IntervalFires 2 2000;
          PressStartPause 2000 2000; PressStartPause 2000 2000;
          PressStartPause 2000 2000]) = [2000; 2000]
  ∧ activityLog (run (mount 0)
         [PressStartPause 1000 1000; IntervalFires 2 2000;
          PressStartPause 5000 5000; PressStartPause 6000 6000;
          IntervalFires 3 7000; PressStartPause 5000 5000]) =
      [Activity.mk 5000 "Timed Session" 2 5000;
       Activity.mk 5000 "Timed Session" 1 5000].
Proof. by vm_compute. Qed.



(** C10. Start and Pause are one handler: every call of [handleStartPause]
    negates [timerRunning]; called while the stopwatch does not run it
    starts it, whatever [timerSeconds] is, schedules the tick and logs
    nothing. *)
Theorem startPause_toggles (w : World) (now_id now_ts : Z) :
  timerRunning (handleStartPause now_id now_ts w) = negb (timerRunning w)
  ∧ timerRunning (toggle now_id now_ts w) = negb (timerRunning w)
  ∧ (timerRunning w = false →
       timerRunning (toggle now_id now_ts w) = true
       ∧ activityLog (toggle now_id now_ts w) = activityLog w
       ∧ alerts (toggle now_id now_ts w) = alerts w
       ∧ ∃ h, pendingTick (toggle now_id now_ts w) h).
Proof.
  split_and!.
  - unfold handleStartPause. by destruct (timerRunning w && (timerSeconds w >? 0)).
  - apply toggle_timerRunning.
  - intros Hrun.
    rewrite toggle_timerRunning, toggle_activityLog, toggle_alerts, Hrun.
    split_and!; try done.
    destruct (toggle_start_schedules now_id now_ts w Hrun) as (h & _ & Hp). eauto.
Qed.

Lemma startPause_toggles_witness :
  timerRunning
    (toggle 30 30 (run (mount 0) [PressStartPause 10 10; IntervalFires 2 0;
                                  PressStartPause 20 20])) = true
  ∧ durations
      (toggle 30 30 (run (mount 0) [PressStartPause 10 10; IntervalFires 2 0;
                                    PressStartPause 20 20])) = [1].
Proof.
  destruct (startPause_toggles
              (run (mount 0) [PressStartPause 10 10; IntervalFires 2 0;
                              PressStartPause 20 20]) 30 30) as (_ & _ & H).
  destruct (H eq_refl) as (Hr & Hl & _).
  split; [exact Hr | unfold durations; rewrite Hl; reflexivity].
Defined.

(** * More of the application *)

(** ** Runs *)

Section Runs.

Lemma run_snoc (w : World) (evs : list Event) (e : Event) :
  run w (evs ++ [e]) = step (run w evs) e.
Proof. apply foldl_snoc. Qed.

Lemma reachable_mount (now : Z) : reachable (mount now).
Proof. by exists now, []. Qed.

Lemma reachable_step (w : World) (e : Event) : reachable w → reachable (step w e).
Proof. intros (now & evs & ->). exists now, (evs ++ [e]). by rewrite run_snoc. Qed.

Lemma reachable_induction (P : World → Prop) :
  (∀ now, P (mount now)) →
  (∀ w e, reachable w → P w → P (step w e)) →
  ∀ w, reachable w → P w.
Proof.
  intros Hm Hs w (now & evs & ->).
  induction evs as [|e evs IH] using rev_ind; [apply Hm|].
  rewrite run_snoc. apply Hs; [by exists now, evs | done].
Qed.

(** No event schedules a wall-clock interval. *)
Lemma step_clock_handles (w : World) (e : Event) (h : nat) :
  timers (step w e) !! h = Some ClockTick → timers w !! h = Some ClockTick.
Proof.
  destruct e as [a b| |k now]; cbn.
  - destruct w as [ct run secs ref log al T nxt]. handlers.
    destruct run, (secs >? 0), ref; table; intuition congruence.
  - destruct (resetDisabled w); [done|].
    destruct w as [ct run secs ref log al T nxt]. handlers.
    destruct run, ref; table; intuition congruence.
  - by destruct (fire_fields k now w) as (_ & _ & _ & -> & _).
Qed.

Lemma reachable_clock_handle (w : World) :
  reachable w → ∀ h, timers w !! h = Some ClockTick → h = clockInterval.
Proof.
  revert w. apply (reachable_induction (λ w, ∀ h, timers w !! h = Some ClockTick → _)).
  - intros now h. cbn. rewrite lookup_insert_Some, lookup_empty.
    intros [[<- _]|[_ [=]]]. done.
  - intros w e _ IH h Hh. by apply IH, (step_clock_handles w e).
Qed.

(** One alert per session, with the duration of that session. *)
Lemma reachable_alerts (w : World) :
  reachable w → alerts w = map alert_of (activityLog w).
Proof.
  revert w. apply (reachable_induction (λ w, alerts w = _)); [done|].
  intros w [a b| |k now] _ IH; cbn.
  - rewrite toggle_alerts, toggle_activityLog.
    destruct (timerRunning w && (timerSeconds w >? 0)); [|done].
    cbn. by rewrite IH.
  - destruct (resetDisabled w); [done|].
    by destruct (reset_fields w) as (_ & _ & -> & ->).
  - by destruct (fire_fields k now w) as (_ & -> & -> & _).
Qed.

(** While the stopwatch is paused the handle in the ref is not scheduled. *)
Lemma paused_ref_stale (w : World) (r : nat) :
  Inv w → timerRunning w = false → timerIntervalRef w = Some r →
  timers w !! r = None.
Proof.
  intros HI Hrun Href. destruct (timers w !! r) as [[]|] eqn:E; [| |done].
  - by destruct (inv_ref w HI r Href).
  - destruct (inv_tick w HI r E) as [? _]. congruence.
Qed.

Lemma paused_no_tick (w : World) (h : nat) :
  Inv w → timerRunning w = false → ¬ pendingTick w h.
Proof. intros HI Hrun Hp. destruct (inv_tick w HI h Hp) as [? _]. congruence. Qed.

End Runs.



(** X2. While the stopwatch of a run is paused, no firing of an interval
    changes [timerSeconds], and a firing of any handle but the wall clock's
    changes nothing at all: a tick that arrives late is ignored. *)
Theorem paused_stopwatch_ignores_firings (w : World) (h : nat) (now : Z) :
  reachable w → timerRunning w = false →
  timerSeconds (fire h now w) = timerSeconds w
  ∧ (h ≠ clockInterval → fire h now w = w).
Proof.
  intros Hreach Hrun. pose proof (reachable_Inv w Hreach) as HI. split.
  - destruct (fire_fields h now w) as (_ & _ & _ & _ & _ & ->).
    rewrite decide_False; [done | by apply paused_no_tick].
  - intros Hne. unfold fire. destruct (timers w !! h) as [[]|] eqn:E; [| |done].
    + by destruct Hne, (reachable_clock_handle w Hreach h E).
    + by destruct (paused_no_tick w h HI Hrun).
Qed.

Lemma paused_stopwatch_ignores_firings_witness :
  timerSeconds
    (fire 2 9 (run (mount 0) [PressStartPause 1 1; IntervalFires 2 5; PressStartPause 6 6])) =
  timerSeconds (run (mount 0) [PressStartPause 1 1; IntervalFires 2 5; PressStartPause 6 6]).
Proof.
  apply (paused_stopwatch_ignores_firings
           (run (mount 0) [PressStartPause 1 1; IntervalFires 2 5; PressStartPause 6 6]) 2 9).
  - exists 0, [PressStartPause 1 1; IntervalFires 2 5; PressStartPause 6 6]. reflexivity.
  - reflexivity.
Defined.

(** X3. In every state of a run at most one stopwatch interval is
    scheduled, it is the one whose handle [timerIntervalRef] holds, and one
    is scheduled exactly when [timerRunning] is true: presses never stack
    intervals, the stopwatch cannot run at double speed. *)
Theorem one_stopwatch_interval (w : World) :
  reachable w →
  (∀ h h', pendingTick w h → pendingTick w h' → h = h')
  ∧ (∀ h, pendingTick w h → timerIntervalRef w = Some h)
  ∧ (timerRunning w = true ↔ ∃ h, pendingTick w h).
Proof.
  intros Hreach. pose proof (reachable_Inv w Hreach) as HI. split_and!.
  - intros h h' Hh Hh'.
    destruct (inv_tick w HI h Hh) as [_ E], (inv_tick w HI h' Hh') as [_ E'].
    congruence.
  - intros h Hh. by destruct (inv_tick w HI h Hh).
  - split.
    + intros Hrun. destruct (inv_running w HI Hrun) as (h & _ & Hp). eauto.
    + intros (h & Hp). by destruct (inv_tick w HI h Hp).
Qed.

Lemma one_stopwatch_interval_witness :
  timerRunning (run (mount 0) [PressStartPause 1 1; PressStartPause 2 2; PressStartPause 3 3]) = true
  ↔ ∃ h, pendingTick (run (mount 0) [PressStartPause 1 1; PressStartPause 2 2; PressStartPause 3 3]) h.
Proof.
  apply (one_stopwatch_interval
           (run (mount 0) [PressStartPause 1 1; PressStartPause 2 2; PressStartPause 3 3])).
  exists 0, [PressStartPause 1 1; PressStartPause 2 2; PressStartPause 3 3]. reflexivity.
Defined.

(** X4. In every state of a run the wall clock's interval is still
    scheduled (no press of Start/Pause or Reset clears it), and its firing
    only stores the new time: the stopwatch and the log are untouched. *)
Theorem wall_clock_keeps_running (w : World) (now : Z) :
  reachable w →
  timers w !! clockInterval = Some ClockTick
  ∧ fire clockInterval now w = setCurrentTime now w.
Proof.
  intros Hreach. pose proof (inv_clock w (reachable_Inv w Hreach)) as Hc.
  split; [done|]. unfold fire, clockInterval. by rewrite Hc.
Qed.

Lemma wall_clock_keeps_running_witness :
  fire clockInterval 99 (run (mount 0) [PressStartPause 1 1; IntervalFires 2 5; PressReset]) =
  setCurrentTime 99 (run (mount 0) [PressStartPause 1 1; IntervalFires 2 5; PressReset]).
Proof.
  apply (wall_clock_keeps_running
           (run (mount 0) [PressStartPause 1 1; IntervalFires 2 5; PressReset]) 99).
  exists 0, [PressStartPause 1 1; IntervalFires 2 5; PressReset]. reflexivity.
Defined.

(** X5. Whenever the Reset button of a run is disabled ([timerSeconds] is 0
    and the stopwatch is paused), [handleReset] would change nothing:
    disabling the button hides no effect. *)
Theorem disabled_reset_is_identity (w : World) :
  reachable w → resetDisabled w = true → reset w = w.
Proof.
  intros Hreach Hdis. pose proof (reachable_Inv w Hreach) as HI.
  unfold resetDisabled in Hdis. apply andb_true_iff in Hdis as [Hs Hr].
  apply Z.eqb_eq in Hs. apply negb_true_iff in Hr.
  pose proof (λ r, paused_ref_stale w r HI Hr) as Hstale.
  destruct w as [ct run secs ref log al T nxt]. cbn in *. subst. handlers.
  destruct ref as [r|]; cbn; [|done]. by rewrite (delete_id T r (Hstale r eq_refl)).
Qed.

Lemma disabled_reset_is_identity_witness :
  reset (run (mount 0) [PressStartPause 1 1; PressStartPause 2 2]) =
  run (mount 0) [PressStartPause 1 1; PressStartPause 2 2].
Proof.
  apply (disabled_reset_is_identity (run (mount 0) [PressStartPause 1 1; PressStartPause 2 2])).
  - exists 0, [PressStartPause 1 1; PressStartPause 2 2]. reflexivity.
  - reflexivity.
Defined.

(** X6. Unmounting [ClockScreen] in any state of a run leaves no interval
    scheduled, so that nothing fires afterwards; the log of [App] is kept. *)
Theorem unmount_clears_intervals (w : World) :
  reachable w →
  timers (unmount w) = ∅
  ∧ (∀ h now, fire h now (unmount w) = unmount w)
  ∧ activityLog (unmount w) = activityLog w.
Proof.
  intros Hreach. pose proof (reachable_Inv w Hreach) as HI.
  assert (timers (unmount w) = ∅) as Hempty.
  { apply map_eq. intros h. rewrite lookup_empty.
    destruct (timers (unmount w) !! h) as [cb|] eqn:E; [exfalso|done].
    pose proof (reachable_clock_handle w Hreach h) as Hclock.
    pose proof (inv_tick w HI h) as Htick.
    destruct w as [ct run secs ref log al T nxt].
    unfold unmount, clockEffect_cleanup, timerEffect_cleanup, pendingTick in *.
    cbn in *. destruct ref as [r|]; cbn in E.
    - apply lookup_delete_Some in E as (Hne & E).
      apply lookup_delete_Some in E as (Hne1 & E).
      destruct cb; [by destruct Hne1, (Hclock E)|].
      destruct (Htick E) as [_ [= ->]]. done.
    - apply lookup_delete_Some in E as (Hne1 & E).
      destruct cb; [by destruct Hne1, (Hclock E)|].
      by destruct (Htick E) as [_ [=]]. }
  split_and!; [done | |].
  - intros h now. unfold fire. by rewrite Hempty, lookup_empty.
  - destruct w as [ct run secs ref log al T nxt]. by destruct ref.
Qed.

Lemma unmount_clears_intervals_witness :
  timers (unmount (run (mount 0) [PressStartPause 1 1; IntervalFires 2 5])) = ∅.
Proof.
  apply (unmount_clears_intervals (run (mount 0) [PressStartPause 1 1; IntervalFires 2 5])).
  exists 0, [PressStartPause 1 1; IntervalFires 2 5]. reflexivity.
Defined.

(** ** Texts: keys, durations, widths *)

Section Texts.

Lemma digit_value_bound (c : ascii) (d : Z) :
  digit_value c = Some d → 0 ≤ d ≤ 9.
Proof.
  unfold digit_value.
  destruct (Z.leb_spec 48 (Z.of_nat (nat_of_ascii c))),
           (Z.leb_spec (Z.of_nat (nat_of_ascii c)) 57); cbn; intros [= <-]; lia.
Qed.

Lemma digits_value (n : Z) :
  0 ≤ n → decimal_acc 0 (JS.digits n) = Some n.
Proof. intros Hn. apply digits_fuel_value, digits_bound, Hn. Qed.

Lemma Number_toString_negative (n : Z) :
  n < 0 → JS.Number_toString n = String "-" (JS.digits (- n)).
Proof. intros Hn. unfold JS.Number_toString. by destruct (Z.ltb_spec n 0); [|lia]. Qed.

Lemma Number_toString_inj (n m : Z) :
  JS.Number_toString n = JS.Number_toString m → n = m.
Proof.
  intros Heq. destruct (Z.lt_ge_cases n 0) as [Hn|Hn], (Z.lt_ge_cases m 0) as [Hm|Hm].
  - rewrite !Number_toString_negative in Heq by done. injection Heq as Heq.
    pose proof (digits_value (- n)) as Hv. rewrite Heq, digits_value in Hv by lia.
    assert (Some (- m) = Some (- n)) as [=] by (apply Hv; lia). lia.
  - pose proof (Number_toString_value m Hm) as Hv.
    by rewrite <- Heq, Number_toString_negative in Hv.
  - pose proof (Number_toString_value n Hn) as Hv.
    by rewrite Heq, Number_toString_negative in Hv.
  - pose proof (Number_toString_value n Hn) as Hv.
    rewrite Heq, Number_toString_value in Hv by done. by injection Hv.
Qed.

Lemma NoDup_map_inj {A B : Type} (f : A → B) (l : list A) :
  (∀ x y, f x = f y → x = y) → NoDup l → NoDup (map f l).
Proof.
  intros Hinj. induction 1 as [|x l Hx Hl IH]; cbn; constructor; [|done].
  intros (y & Hy & Hin)%list_elem_of_In%in_map_iff.
  apply Hinj in Hy as ->. by apply list_elem_of_In in Hin.
Qed.

(** Two strings of digits followed by a colon: the colons are at the same
    place. *)
Lemma colon_split (a b x y : string) (acc1 acc2 va vb : Z) :
  decimal_acc acc1 a = Some va → decimal_acc acc2 b = Some vb →
  a +:+ String ":" x = b +:+ String ":" y → a = b ∧ x = y.
Proof.
  revert b acc1 acc2. induction a as [|c a IH]; intros [|c' b] acc1 acc2 Ha Hb Heq;
    cbn in *.
  - by injection Heq.
  - injection Heq as <- _. by cbn in Hb.
  - injection Heq as -> _. by cbn in Ha.
  - injection Heq as -> Heq.
    destruct (digit_value c') as [d|]; [|done].
    destruct (IH b _ _ Ha Hb Heq) as [-> ->]. done.
Qed.

Lemma pad_field_value (v : Z) :
  0 ≤ v → decimal_acc 0 (pad_field v) = Some v.
Proof.
  intros Hv. destruct (pad_field_padded v Hv) as (Hval & Hlen & _).
  unfold decimal_value in Hval. destruct (pad_field v); [cbn in Hlen; lia | done].
Qed.

Lemma renderDurationText_nonneg (d : Z) :
  0 ≤ d → renderDurationText d = "Duration: " +:+ formatTime d.
Proof.
  intros Hd. destruct (fields_nonneg d Hd) as (Hh & Hr1 & Hm & Hr2 & Hsec).
  unfold renderDurationText, renderDuration, JS.floor_div, JS.rem.
  rewrite formatTime_fields, !padStart_pad_field;
    [done | rewrite Hr2; lia | rewrite Hr1; lia | done].
Qed.

Lemma two_chars_value (s : string) (v : Z) :
  decimal_acc 0 s = Some v → (String.length s ≤ 2)%nat → v < 100.
Proof.
  destruct s as [|c1 [|c2 [|c3 s]]]; cbn; intros Hv Hlen; [| | |lia].
  - injection Hv as <-. lia.
  - destruct (digit_value c1) as [d1|] eqn:E1; [|done].
    apply digit_value_bound in E1. injection Hv as <-. lia.
  - destruct (digit_value c1) as [d1|] eqn:E1; [|done].
    destruct (digit_value c2) as [d2|] eqn:E2; [|done].
    apply digit_value_bound in E1, E2. injection Hv as <-. lia.
Qed.

Lemma formatTime_length (s : Z) :
  String.length (formatTime s) =
    (String.length (pad_field (s / 3600))
     + String.length (pad_field (Z.rem s 3600 / 60))
     + String.length (pad_field (Z.rem s 60)) + 2)%nat.
Proof. rewrite formatTime_fields, !append_length. cbn [String.length]. lia. Qed.

End Texts.

(** X7. In every state of a run the log screen and the alerts tell the
    same durations: with an empty log no alert was shown; otherwise the
    duration lines of the rows, from the newest entry down, are the messages
    of the alerts, from the last one shown back to the first. *)
Theorem log_rows_match_alerts (w : World) :
  reachable w →
  match ActivityLogScreen (activityLog w) with
  | NoActivities _ => alerts w = []
  | FlatList rows => map (λ kr, row_duration (snd kr)) rows = map snd (alerts w)
  end.
Proof.
  intros Hreach. rewrite (reachable_alerts w Hreach).
  pose proof (inv_log w (reachable_Inv w Hreach)) as Hlog.
  unfold ActivityLogScreen. destruct (activityLog w) as [|item log] eqn:E; [done|].
  cbn [length Nat.eqb]. rewrite <- E in *. clear E.
  induction Hlog as [|a l Ha _ IH]; [done|].
  cbn. rewrite renderDurationText_nonneg by lia. f_equal. apply IH.
Qed.

Lemma log_rows_match_alerts_witness :
  match
    ActivityLogScreen
      (activityLog (run (mount 0) [PressStartPause 1 1; IntervalFires 2 5; PressStartPause 6 6]))
  with
  | NoActivities _ =>
      alerts (run (mount 0) [PressStartPause 1 1; IntervalFires 2 5; PressStartPause 6 6]) = []
  | FlatList rows =>
      map (λ kr, row_duration (snd kr)) rows =
      map snd (alerts (run (mount 0) [PressStartPause 1 1; IntervalFires 2 5; PressStartPause 6 6]))
  end.
Proof.
  apply (log_rows_match_alerts
           (run (mount 0) [PressStartPause 1 1; IntervalFires 2 5; PressStartPause 6 6])).
  exists 0, [PressStartPause 1 1; IntervalFires 2 5; PressStartPause 6 6]. reflexivity.
Defined.

(** X8. Two entries have the same [FlatList] key exactly when they have the
    same id, and when the readings of [Date.now()] at the presses of
    Start/Pause of a run are pairwise distinct, the keys of the rows of the
    log screen are pairwise distinct. *)
Theorem distinct_readings_distinct_keys :
  (∀ a b : Activity.t, keyExtractor a = keyExtractor b ↔ Activity.id a = Activity.id b)
  ∧ (∀ (now : Z) (evs : list Event),
       NoDup (press_ids evs) →
       NoDup (map keyExtractor (activityLog (run (mount now) evs)))).
Proof.
  split.
  - intros a b. unfold keyExtractor. split; [apply Number_toString_inj | by intros ->].
  - intros now evs Hnd.
    assert (NoDup (ids (run (mount now) evs))) as Hids.
    { eapply sublist_NoDup; [|apply run_ids].
      cbn. by rewrite app_nil_r, reverse_Permutation. }
    unfold ids in Hids.
    replace (map keyExtractor (activityLog (run (mount now) evs)))
      with (map JS.Number_toString (map Activity.id (activityLog (run (mount now) evs))))
      by apply map_map.
    by apply NoDup_map_inj; [apply Number_toString_inj|].
Qed.

Lemma distinct_readings_distinct_keys_witness :
  NoDup (map keyExtractor
           (activityLog (run (mount 0)
              [PressStartPause 1 1; IntervalFires 2 5; PressStartPause 6 6;
               PressStartPause 7 7; PressStartPause 8 8]))).
Proof.
  apply (proj2 distinct_readings_distinct_keys 0
           [PressStartPause 1 1; IntervalFires 2 5; PressStartPause 6 6;
            PressStartPause 7 7; PressStartPause 8 8]).
  by apply (bool_decide_unpack _).
Defined.

(** X9. [formatTime] tells all elapsed times apart: two different
    non-negative numbers of seconds are never displayed as the same text. *)
Theorem formatTime_injective (s1 s2 : Z) :
  0 ≤ s1 → 0 ≤ s2 → s1 ≠ s2 → formatTime s1 ≠ formatTime s2.
Proof.
  intros H1 H2 Hne Heq. apply Hne. clear Hne.
  destruct (fields_nonneg s1 H1) as (Hh1 & Hr1 & Hm1 & Hq1 & Hs1).
  destruct (fields_nonneg s2 H2) as (Hh2 & Hr2 & Hm2 & Hq2 & Hs2).
  rewrite !formatTime_fields, Hr1, Hr2, Hq1, Hq2 in Heq.
  pose proof (pad_field_value (s1 / 3600) Hh1) as Va.
  pose proof (pad_field_value (s2 / 3600) Hh2) as Vb.
  destruct (colon_split _ _ _ _ _ _ _ _ Va Vb Heq) as [Hh Heq'].
  pose proof (pad_field_value ((s1 mod 3600) / 60) (proj1 Hm1)) as Vc.
  pose proof (pad_field_value ((s2 mod 3600) / 60) (proj1 Hm2)) as Vd.
  destruct (colon_split _ _ _ _ _ _ _ _ Vc Vd Heq') as [Hm Hs].
  rewrite Hh in Va. rewrite Hm in Vc.
  pose proof (pad_field_value (s1 mod 60) (proj1 Hs1)) as Ve.
  rewrite Hs, pad_field_value in Ve by lia.
  assert (s1 / 3600 = s2 / 3600) by congruence.
  assert ((s1 mod 3600) / 60 = (s2 mod 3600) / 60) by congruence.
  assert (s1 mod 60 = s2 mod 60) by congruence.
  Z.div_mod_to_equations. lia.
Qed.

Lemma formatTime_injective_witness : formatTime 59 ≠ formatTime 60.
Proof. apply (formatTime_injective 59 60); lia. Defined.

(** X10. The text of [formatTime] has exactly 8 characters for every time
    below 100 hours and more than 8 from 100 hours on: the hours are never
    cut to two digits. *)
Theorem formatTime_width (s : Z) :
  0 ≤ s →
  (s < 360000 → String.length (formatTime s) = 8%nat)
  ∧ (360000 ≤ s → (8 < String.length (formatTime s))%nat).
Proof.
  intros Hs. destruct (fields_nonneg s Hs) as (Hh & Hr1 & Hm & Hr2 & Hsec).
  rewrite formatTime_length, Hr1, Hr2.
  rewrite (pad_field_width ((s mod 3600) / 60)), (pad_field_width (s mod 60)) by lia.
  split; intros Hb.
  - rewrite pad_field_width; [done|].
    split; [done|]. apply Z.div_lt_upper_bound; lia.
  - assert (100 ≤ s / 3600) as Hbig by (apply Z.div_le_lower_bound; lia).
    pose proof (pad_field_value (s / 3600) Hh) as Hv.
    destruct (Nat.le_gt_cases (String.length (pad_field (s / 3600))) 2) as [Hle|Hgt]; [|lia].
    pose proof (two_chars_value _ _ Hv Hle). lia.
Qed.

Lemma formatTime_width_witness :
  (8 < String.length (formatTime 360000))%nat.
Proof. apply (formatTime_width 360000); lia. Defined.

(** X11. On a negative number of seconds the two renderings part:
    [formatTime] writes [0-] at the head (the zero of the padding before the
    sign), the log screen writes the sign first. They agree only on
    non-negative durations. *)
Theorem negative_duration_renderings_differ (d : Z) :
  d < 0 →
  (∃ rest, formatTime d = String "0" (String "-" rest))
  ∧ (∃ rest, renderDuration d = String "-" rest)
  ∧ renderDuration d ≠ formatTime d.
Proof.
  intros Hd.
  assert (d / 3600 < 0) as Hh by (apply Z.div_lt_upper_bound; lia).
  assert (∃ rest, formatTime d = String "0" (String "-" rest)) as (r1 & E1).
  { rewrite formatTime_fields. unfold pad_field at 1.
    destruct (Z.ltb_spec (d / 3600) 10); [|lia].
    rewrite Number_toString_negative by done. eexists. cbn. reflexivity. }
  assert (∃ rest, renderDuration d = String "-" rest) as (r2 & E2).
  { unfold renderDuration, JS.floor_div. unfold JS.padStart at 1.
    rewrite Number_toString_negative by done. unfold JS.digits.
    pose proof (digits_fuel_nonempty (Z.to_nat (Z.log2 (- (d / 3600)))) (- (d / 3600))).
    cbn [String.length].
    destruct (Nat.leb_spec 2
                (S (String.length
                      (JS.digits_fuel (S (Z.to_nat (Z.log2 (- (d / 3600))))) (- (d / 3600))))));
      [|lia].
    eexists. cbn. reflexivity. }
  split_and!; [by eauto | by eauto |]. rewrite E1, E2. discriminate.
Qed.

Lemma negative_duration_renderings_differ_witness :
  renderDuration (-3661) ≠ formatTime (-3661).
Proof. apply (negative_duration_renderings_differ (-3661)). lia. Defined.

(** X12. [tabBarIcon] finds an icon for a route name exactly when the name
    is one of the four [Tab.Screen] names, and gives different screens
    different icons: no tab is drawn with an undefined component. *)
Theorem every_tab_has_its_icon :
  (∀ name : string, tabBarIcon name = None ↔ name ∉ tabScreens)
  ∧ (∀ n1 n2 : string,
       n1 ∈ tabScreens → n1 ≠ n2 → tabBarIcon n1 ≠ tabBarIcon n2).
Proof.
  assert (∀ name, tabBarIcon name = None ↔ name ∉ tabScreens) as Hnone.
  { intros name. unfold tabBarIcon, tabScreens.
    rewrite !not_elem_of_cons, elem_of_nil.
    destruct (String.eqb_spec name "Time"); [split; [done | tauto]|].
    destruct (String.eqb_spec name "Settings"); [split; [done | tauto]|].
    destruct (String.eqb_spec name "Log"); [split; [done | tauto]|].
    destruct (String.eqb_spec name "About"); [split; [done | tauto]|].
    tauto. }
  split; [done|].
  intros n1 n2 Hin Hne Heq.
  assert (tabBarIcon n1 ≠ None) as Hsome by (rewrite Hnone; tauto).
  unfold tabBarIcon in *.
  destruct (String.eqb_spec n1 "Time"), (String.eqb_spec n2 "Time"),
           (String.eqb_spec n1 "Settings"), (String.eqb_spec n2 "Settings"),
           (String.eqb_spec n1 "Log"), (String.eqb_spec n2 "Log"),
           (String.eqb_spec n1 "About"), (String.eqb_spec n2 "About");
    congruence.
Qed.

Lemma every_tab_has_its_icon_witness : tabBarIcon "Log" ≠ tabBarIcon "About".
Proof.
  apply (proj2 every_tab_has_its_icon "Log" "About"); [|discriminate].
  by apply (bool_decide_unpack _).
Defined.

(** X13. The ids in the log of a run, from the newest entry down, follow
    the readings of [Date.now()] at the presses of Start/Pause from the last
    press back to the first: entries are never reordered, and there are at
    most as many as presses. *)
Theorem log_is_newest_first (now : Z) (evs : list Event) :
  ids (run (mount now) evs) `sublist_of` reverse (press_ids evs)
  ∧ (length (activityLog (run (mount now) evs)) ≤ length (press_ids evs))%nat.
Proof.
  assert (ids (run (mount now) evs) `sublist_of` reverse (press_ids evs)) as Hsub.
  { pose proof (run_ids evs (mount now)) as H. cbn in H. by rewrite app_nil_r in H. }
  split; [done|].
  apply sublist_length in Hsub. unfold ids in Hsub.
  by rewrite length_map, length_reverse in Hsub.
Qed.

(** X14. The stopwatch never counts faster than its ticks arrive: after any
    run [timerSeconds] is between 0 and the number of interval firings of
    the run, and so is every duration in the log (which is at least 1). *)
Theorem seconds_bounded_by_firings (now : Z) (evs : list Event) :
  0 ≤ timerSeconds (run (mount now) evs) ≤ Z.of_nat (firings evs)
  ∧ Forall (λ d, 1 ≤ d ≤ Z.of_nat (firings evs)) (durations (run (mount now) evs)).
Proof.
  induction evs as [|e evs IH] using rev_ind; [by vm_compute|].
  rewrite run_snoc. destruct IH as (Hsec & Hdur).
  set (w := run (mount now) evs) in *.
  assert (firings (evs ++ [e]) = (firings evs + (if is_firing e then 1 else 0))%nat) as ->.
  { unfold firings. rewrite List.filter_app, List.length_app. cbn. by destruct (is_firing e). }
  assert (Forall (λ d, 1 ≤ d ≤ Z.of_nat (firings evs + (if is_firing e then 1 else 0)))
            (durations w)) as Hdur'.
  { eapply Forall_impl; [exact Hdur|]. cbn. intros d ?. lia. }
  unfold durations in *. destruct e as [a b| |h t]; cbn [step is_firing].
  - rewrite toggle_timerSeconds, toggle_activityLog. split; [lia|].
    destruct (timerRunning w); cbn [andb]; [|done].
    destruct (Z.gtb_spec (timerSeconds w) 0); [|done].
    cbn. constructor; [cbn; lia | done].
  - destruct (resetDisabled w); [split; [lia | done]|].
    destruct (reset_fields w) as (-> & _ & -> & _). split; [lia | done].
  - destruct (fire_fields h t w) as (_ & -> & _ & _ & _ & ->).
    split; [case_decide; lia | done].
Qed.

(** X15. A Start followed at once by a Pause, with no tick in between,
    leaves the stopwatch paused with the same [timerSeconds]; it logs
    nothing when [timerSeconds] is 0 and logs one more session of the
    unchanged [timerSeconds] when it is positive. *)
Theorem start_then_pause_without_tick (w : World) (t1 t2 t3 t4 : Z) :
  timerRunning w = false →
  timerRunning (toggle t3 t4 (toggle t1 t2 w)) = false
  ∧ timerSeconds (toggle t3 t4 (toggle t1 t2 w)) = timerSeconds w
  ∧ (timerSeconds w ≤ 0 →
       activityLog (toggle t3 t4 (toggle t1 t2 w)) = activityLog w)
  ∧ (0 < timerSeconds w →
       activityLog (toggle t3 t4 (toggle t1 t2 w)) =
         Activity.mk t3 "Timed Session" (timerSeconds w) t4 :: activityLog w).
Proof.
  intros Hrun.
  rewrite !toggle_timerRunning, !toggle_timerSeconds, !toggle_activityLog,
    toggle_timerRunning, toggle_timerSeconds, Hrun.
  cbn [negb andb]. split_and!; try done.
  - intros Hle. by destruct (Z.gtb_spec (timerSeconds w) 0); [lia|].
  - intros Hpos. by destruct (Z.gtb_spec (timerSeconds w) 0); [|lia].
Qed.

Lemma start_then_pause_without_tick_witness :
  activityLog
    (toggle 8 9 (toggle 7 7
       (run (mount 0) [PressStartPause 1 1; IntervalFires 2 5; PressStartPause 6 6]))) =
  [Activity.mk 8 "Timed Session" 1 9; Activity.mk 6 "Timed Session" 1 6].
Proof.
  apply (start_then_pause_without_tick
           (run (mount 0) [PressStartPause 1 1; IntervalFires 2 5; PressStartPause 6 6])
           7 7 8 9);
    [reflexivity | vm_compute; reflexivity].
Defined.


(** ** Doubles and exact integers *)

Section Doubles.

Lemma round_half_even_bounds (num den : Z) :
  0 < den →
  num / den ≤ Double.round_half_even num den
  ∧ 2 * Double.round_half_even num den * den ≤ 2 * num + den.
Proof.
  intros Hden. unfold Double.round_half_even.
  pose proof (Z.div_mod num den ltac:(lia)) as Hdm.
  pose proof (Z.mod_pos_bound num den Hden) as Hr.
  destruct (Z.ltb_spec (2 * (num mod den)) den);
    [|destruct (Z.ltb_spec den (2 * (num mod den))); [|destruct (Z.even (num / den))]];
    split; nia.
Qed.

(** With a dividend below [2^53], rounding the quotient to 53 bits does not
    reach the next integer. *)
Lemma scaled_floor (a b k : Z) :
  0 < a < 2 ^ 53 → 0 < b → 0 ≤ k → 2 ^ 52 * b ≤ a * 2 ^ k →
  Double.round_half_even (a * 2 ^ k) b / 2 ^ k = a / b.
Proof.
  intros Ha Hb Hk Hnorm.
  change (2 ^ 53) with 9007199254740992 in Ha.
  change (2 ^ 52) with 4503599627370496 in Hnorm.
  assert (0 < 2 ^ k) as HP by (by apply Z.pow_pos_nonneg).
  set (P := 2 ^ k) in *.
  destruct (round_half_even_bounds (a * P) b Hb) as [Hlo Hhi].
  set (m := Double.round_half_even (a * P) b) in *.
  pose proof (Z.div_mod a b ltac:(lia)) as Hdm.
  pose proof (Z.mod_pos_bound a b Hb) as Hr.
  set (q := a / b) in *. set (r := a mod b) in *.
  assert (b < 2 * P) as HbP by nia.
  assert (q * P ≤ m) as Hqm.
  { etrans; [|exact Hlo]. apply Z.div_le_lower_bound; [done|]. nia. }
  assert (m < (q + 1) * P) as Hmq.
  { destruct (Z.lt_ge_cases m ((q + 1) * P)) as [|Hge]; [done|exfalso].
    assert (2 * ((q + 1) * P) * b ≤ 2 * m * b) by nia.
    assert (2 * ((q + 1) * P) * b = 2 * a * P + 2 * (b - r) * P) by (rewrite Hdm; ring).
    nia. }
  symmetry. apply (Z.div_unique m P q (m - q * P)); lia.
Qed.

Lemma scale_nonpos (x e : Z) :
  e ≤ 0 → Double.scale x e = x / 2 ^ (- e).
Proof.
  intros He. unfold Double.scale. destruct (Z.leb_spec 0 e); [|done].
  assert (e = 0) as -> by lia. cbn. by rewrite Z.mul_1_r, Z.div_1_r.
Qed.

(** Below [2^53] [Math.floor(a / b)] on doubles is the exact quotient. *)
Lemma floor_div_exact (a b : Z) :
  0 ≤ a < 2 ^ 53 → 0 < b → Double.floor_div a b = a / b.
Proof.
  intros Ha Hb. unfold Double.floor_div.
  destruct (Z.eqb_spec a 0) as [->|Hne]; [done|].
  assert (0 < a) as Hpos by lia.
  rewrite Z.abs_eq, Z.sgn_pos, Z.mul_1_l by lia.
  unfold Double.quotient_mantissa.
  destruct (Z.log2_spec a Hpos) as [Hla1 Hla2], (Z.log2_spec b Hb) as [Hlb1 Hlb2].
  pose proof (Z.log2_nonneg a) as Hla0. pose proof (Z.log2_nonneg b) as Hlb0.
  assert (Z.log2 a < 53) as Hla by (apply Z.log2_lt_pow2; [done | apply Ha]).
  assert (∃ k, 0 ≤ k ∧ Double.quotient_exponent a b = - k ∧ 2 ^ 52 * b ≤ a * 2 ^ k)
    as (k & Hk & -> & Hnorm).
  { unfold Double.quotient_exponent.
    set (e0 := Z.log2 a - Z.log2 b - 52).
    rewrite (Z.max_l 0 e0), (Z.max_r 0 (- e0)), Z.pow_0_r, Z.mul_1_r by lia.
    destruct (Z.ltb_spec (a * 2 ^ (- e0)) (2 ^ 52 * b)) as [Hlt|Hge].
    - exists (- e0 + 1). split_and!; [lia | lia |].
      replace (- e0 + 1) with (Z.log2 b + 53 - Z.log2 a) by lia.
      assert (2 ^ Z.log2 a * 2 ^ (Z.log2 b + 53 - Z.log2 a) = 2 ^ 52 * 2 ^ Z.succ (Z.log2 b)) as Hpow.
      { rewrite <- !Z.pow_add_r by lia. f_equal. lia. }
      assert (0 < 2 ^ (Z.log2 b + 53 - Z.log2 a)) by (apply Z.pow_pos_nonneg; lia).
      nia.
    - exists (- e0). split_and!; [lia | lia | done]. }
  rewrite scale_nonpos by lia.
  rewrite (Z.max_l 0 (- k)), (Z.max_r 0 (- - k)), Z.pow_0_r, Z.mul_1_r, Z.opp_involutive by lia.
  apply scaled_floor; [split; [done | apply Ha] | done..].
Qed.

Lemma round53_safe (c v : Z) :
  0 ≤ c → 0 ≤ v < 2 ^ 53 → Double.round53 c = v → c = v.
Proof.
  intros Hc Hv. unfold Double.round53.
  destruct (Z.leb_spec (Z.log2 c - 52) 0) as [Hle|Hgt]; [done|].
  intros Hr. exfalso.
  assert (0 < c) as Hpos by (destruct (Z.eq_dec c 0) as [->|]; [cbn in Hgt; lia | lia]).
  destruct (Z.log2_spec c Hpos) as [Hl1 _].
  set (e := Z.log2 c - 52) in *.
  assert (0 < 2 ^ e) as HP by (apply Z.pow_pos_nonneg; lia).
  destruct (round_half_even_bounds c (2 ^ e) HP) as [Hlo _].
  assert (2 ^ Z.log2 c = 2 ^ 52 * 2 ^ e) as Hpow
    by (rewrite <- Z.pow_add_r by lia; f_equal; lia).
  assert (2 ^ 52 ≤ c / 2 ^ e) by (apply Z.div_le_lower_bound; [done | lia]).
  assert (2 ≤ 2 ^ e) by (change 2 with (2 ^ 1) at 1; apply Z.pow_le_mono_r; lia).
  change (2 ^ 53) with 9007199254740992 in Hv.
  change (2 ^ 52) with 4503599627370496 in *. nia.
Qed.

Lemma pick_sound (v p c_lo c_hi c : Z) :
  Double.pick v p c_lo c_hi = Some c → (c = c_lo ∨ c = c_hi) ∧ Double.round53 c = v.
Proof.
  unfold Double.pick.
  destruct (Z.eqb_spec (Double.round53 c_lo) v), (Z.eqb_spec (Double.round53 c_hi) v);
    repeat case_match; intros [= <-]; auto.
Qed.

(** Below [2^53] every digit is written. *)
Lemma shortest_fuel_safe (fuel : nat) (v p : Z) :
  0 ≤ v < 2 ^ 53 → 0 ≤ p → Double.shortest_fuel fuel v p = v.
Proof.
  intros Hv. revert p. induction fuel as [|fuel IH]; intros p Hp; [done|].
  cbn [Double.shortest_fuel].
  destruct (Double.pick v p (v / p * p) (v / p * p + p)) as [c|] eqn:E.
  - apply pick_sound in E as [Hc Hr].
    pose proof (Z_div_nonneg_nonneg v p ltac:(lia) Hp).
    apply (round53_safe c v); [destruct Hc as [-> | ->]; nia | done | done].
  - apply IH. by apply Z_div_nonneg_nonneg.
Qed.

Lemma Number_toString_safe (v : Z) :
  0 ≤ v < 2 ^ 53 → Double.Number_toString v = JS.Number_toString v.
Proof.
  intros Hv. unfold Double.Number_toString, JS.Number_toString.
  destruct (Z.ltb_spec v 0); [lia|].
  unfold Double.magnitude_toString, Double.shortest.
  rewrite shortest_fuel_safe; [|done|by apply Z.pow_nonneg].
  change (2 ^ 53) with 9007199254740992 in Hv.
  change (10 ^ 21) with 1000000000000000000000.
  by destruct (Z.ltb_spec v 1000000000000000000000); [|lia].
Qed.

Lemma pad_field_safe (v : Z) :
  0 ≤ v < 2 ^ 53 → Double.pad_field v = pad_field v.
Proof.
  intros Hv. unfold Double.pad_field, pad_field. by rewrite Number_toString_safe.
Qed.

(** On the integers that doubles hold exactly, [formatTime] on doubles is
    [formatTime] on exact integers. *)
Lemma formatTime_safe (s : Z) :
  0 ≤ s < 2 ^ 53 → Double.formatTime s = formatTime s.
Proof.
  intros Hs. destruct (fields_nonneg s (proj1 Hs)) as (Hh & Hr1 & Hm & Hr2 & Hsec).
  assert (s / 3600 ≤ s) by (apply Z.div_le_upper_bound; lia).
  pose proof (Z.mod_pos_bound s 3600 ltac:(lia)) as Hrem.
  unfold Double.formatTime, formatTime, JS.floor_div, JS.rem.
  rewrite Hr1, Hr2, !floor_div_exact by (change (2 ^ 53) with 9007199254740992 in *; lia).
  cbn [map].
  rewrite !pad_field_safe; [done | | |];
    change (2 ^ 53) with 9007199254740992 in *; lia.
Qed.

End Doubles.

(** C3, as the code has it. For every integer [0 ≤ totalSeconds < 2^53]
    (the integers that a JavaScript number holds exactly) [formatTime]
    returns [HH:MM:SS] where [HH], [MM] and [SS] are the decimal digits of
    [floor(totalSeconds/3600)], [floor((totalSeconds%3600)/60)] and
    [totalSeconds%60], each padded with zeros to two digits; the minutes and
    the seconds have exactly two digits, the hours have as many as their
    value needs (they read back as the exact quotient, no wraparound). In
    particular [formatTime 0 = 00:00:00], [formatTime 59 = 00:00:59],
    [formatTime 3600 = 01:00:00] and [formatTime 3661 = 01:01:01]. *)
Theorem formatTime_HH_MM_SS_safe :
  (∀ totalSeconds : Z, 0 ≤ totalSeconds < 2 ^ 53 →
     ∃ HH MM SS : string,
       Double.formatTime totalSeconds = HH +:+ ":" +:+ MM +:+ ":" +:+ SS
       ∧ padded_decimal 2 (totalSeconds / 3600) HH
       ∧ padded_decimal 2 ((totalSeconds mod 3600) / 60) MM
       ∧ String.length MM = 2%nat
       ∧ padded_decimal 2 (totalSeconds mod 60) SS
       ∧ String.length SS = 2%nat)
  ∧ Double.formatTime 0 = "00:00:00"
  ∧ Double.formatTime 59 = "00:00:59"
  ∧ Double.formatTime 3600 = "01:00:00"
  ∧ Double.formatTime 3661 = "01:01:01".
Proof.
  split; [|by vm_compute].
  intros s Hs. rewrite formatTime_safe by done.
  apply formatTime_exact_fields, Hs.
Qed.

Lemma formatTime_HH_MM_SS_safe_witness :
  ∃ HH MM SS : string,
    Double.formatTime 360000 = HH +:+ ":" +:+ MM +:+ ":" +:+ SS
    ∧ padded_decimal 2 (360000 / 3600) HH
    ∧ padded_decimal 2 ((360000 mod 3600) / 60) MM
    ∧ String.length MM = 2%nat
    ∧ padded_decimal 2 (360000 mod 60) SS
    ∧ String.length SS = 2%nat.
Proof. apply (proj1 formatTime_HH_MM_SS_safe 360000). vm_compute. by split. Defined.

(** C3 fails as it is written, for every integer [totalSeconds ≥ 0]: the
    double [10^21] is an integer, its quotient by 3600 is rounded to the
    double 277777777777777792 and written with the shortest digits that
    read back as that double, so the hours of the text are not the digits
    of [floor(10^21 / 3600) = 277777777777777777]. *)
Lemma formatTime_1e21_hours_inexact :
  Double.round53 (10 ^ 21) = 10 ^ 21
  ∧ Double.formatTime (10 ^ 21) = "277777777777777800:46:40"
  ∧ ¬ ∃ HH MM SS : string,
        Double.formatTime (10 ^ 21) = HH +:+ ":" +:+ MM +:+ ":" +:+ SS
        ∧ padded_decimal 2 (10 ^ 21 / 3600) HH
        ∧ padded_decimal 2 ((10 ^ 21 mod 3600) / 60) MM
        ∧ String.length MM = 2%nat
        ∧ padded_decimal 2 (10 ^ 21 mod 60) SS
        ∧ String.length SS = 2%nat.
Proof.
  assert (Double.formatTime (10 ^ 21) = "277777777777777800" +:+ String ":" "46:40") as E
    by (by vm_compute).
  split_and!; [by vm_compute | by vm_compute |].
  intros (HH & MM & SS & Heq & (Hv & Hlen & _) & _).
  rewrite E in Heq.
  assert (decimal_acc 0 HH = Some (10 ^ 21 / 3600)) as Hacc.
  { unfold decimal_value in Hv. by destruct HH. }
  assert (decimal_acc 0 "277777777777777800" = Some 277777777777777800) as Hlit
    by (by vm_compute).
  change (HH +:+ ":" +:+ MM +:+ ":" +:+ SS)
    with (HH +:+ String ":" (MM +:+ ":" +:+ SS)) in Heq.
  destruct (colon_split _ _ _ _ _ _ _ _ Hlit Hacc Heq) as [<- _].
  rewrite Hlit in Hacc. vm_compute in Hacc. discriminate.
Qed.
